(** * Verification of the sync endpoint (netlify/functions/sync.js)

    The file embeds the POST merge of [exports.handler] and the method
    dispatch around it, and states the properties of the merge rules as
    theorems about that embedding.

    Modelling conventions.
    - A JavaScript object used as a dictionary is a [gmap string _] of its
      own enumerable properties; names inherited from [Object.prototype]
      are not part of the model.
    - Containers the code iterates over or indexes into (the six top-level
      fields, the per-date and per-player inner objects) are typed as the
      data model has them; a top-level field may be missing ([None]), which
      is what the code guards with [|| {}], [|| []], [?.] and spread.
    - Values the code reads a property of (a profile for [totalXP], a
      report for [reportId]) are objects with that property typed and
      possibly missing.
    - Values the code only copies or tests for truthiness (question sets,
      practice attempts, progress records) are arbitrary JSON values.
    - Numbers are integers [Z]: XP and scores are integer counters, for
      which [+] and [>] on JavaScript numbers agree with [Z] in the safe
      integer range. *)

From stdpp Require Import gmap strings list fin_maps.

Local Open Scope string_scope.
Local Open Scope list_scope.
Local Open Scope Z_scope.

(** ** JSON values and the JavaScript operators the handler uses *)

Module Js.

#[local] Set Warnings "-register-all".

Inductive value : Type :=
| VNull
| VBool (b : bool)
| VNum (n : Z)
| VStr (s : string)
| VArr (xs : list value)
| VObj (props : list (string * value)).

(** [!!v]: [null], [false], [0] and the empty string are falsy. *)
Definition truthy (v : value) : bool :=
  match v with
  | VNull => false
  | VBool b => b
  | VNum n => negb (n =? 0)
  | VStr s => negb (String.eqb s "")
  | VArr _ | VObj _ => true
  end.

(** Truthiness of a property read; a missing property reads [undefined]. *)
Definition truthy_prop (o : option value) : bool :=
  match o with
  | Some v => truthy v
  | None => false
  end.

(** [x || 0] on a number that may be [undefined]. *)
Definition or_zero (x : option Z) : Z :=
  match x with
  | Some n => if n =? 0 then 0 else n
  | None => 0
  end.

(** [x > y] where [x] may be [undefined]: [undefined] converts to [NaN],
    and every comparison with [NaN] is false. *)
Definition gt (x : option Z) (y : Z) : bool :=
  match x with
  | Some n => y <? n
  | None => false
  end.

(** [x || {}] and [{ ...x }] on an object that may be [undefined]. *)
Definition or_obj {V} (o : option (gmap string V)) : gmap string V :=
  default ∅ o.

(** [x || []] on an array that may be [undefined]. *)
Definition or_arr {A} (o : option (list A)) : list A :=
  default [] o.

(** [{ ...a, ...b }]: the properties of [b] are written after those of
    [a], so [b] wins on a common key. *)
Definition spread2 {V} (a b : option (gmap string V)) : gmap string V :=
  or_obj b ∪ or_obj a.

(** [Object.keys(o).forEach(k => body(k, o[k]))], with the loop state
    passed explicitly.  The keys come in the order of [map_to_list], not
    in the insertion order [Object.keys] has; every loop of the handler
    writes under its own key only, and [fold_left_per_key] below holds
    for any order of the keys. *)
Definition forEach_key {V S} (o : gmap string V)
    (body : S → string * V → S) (s : S) : S :=
  fold_left body (map_to_list o) s.

(** [xs.forEach(x => body(x))]. *)
Definition forEach {A S} (xs : list A) (body : S → A → S) (s : S) : S :=
  fold_left body xs s.

End Js.

Import Js.

(** ** The snapshot document *)

(** A player profile: [totalXP] is [None] when the property is missing;
    the other properties are carried along. *)
Record profile : Type := Profile {
  totalXP : option Z;
  profile_fields : list (string * value)
}.

(** A report record: [reportId] is [None] when the property is missing. *)
Record report : Type := Report {
  reportId : option string;
  report_fields : list (string * value)
}.

(** The snapshot, as stored under ['main'] and as sent by a client; a
    field is [None] when the document does not have it. *)
Record document : Type := Document {
  _id : option string;
  questionSets : option (gmap string value);
  playerProfiles : option (gmap string profile);
  dailyRevisionScores : option (gmap string (gmap string Z));
  practiceHistory : option (gmap string value);
  revisionProgress : option (gmap string (gmap string value));
  reportedQuestions : option (list report);
  lastUpdated : option string
}.

(** The object [{}]: what [findOne(...) || {}] gives when nothing is
    stored, and the least a client can send. *)
Definition empty_document : document :=
  Document None None None None None None None None.

(** ** The merge of the POST branch (sync.js, lines 72-135) *)

Module Sync.

(** Lines 89-96, one iteration.  [existing] is
    [existingData.playerProfiles]; a profile is an object, so
    [!existingPlayer] holds exactly when the player is not stored. *)
Definition merge_player (existing : option (gmap string profile))
    (merged : gmap string profile) (e : string * profile)
    : gmap string profile :=
  let '(player, incomingPlayer) := e in
  let existingPlayer := existing ≫= (.!! player) in
  match existingPlayer with
  | None => <[player := incomingPlayer]> merged
  | Some existingPlayer =>
      if gt (totalXP incomingPlayer) (or_zero (totalXP existingPlayer))
      then <[player := incomingPlayer]> merged
      else merged
  end.

(** Lines 103-107, one iteration: the score of [player] under [date].
    Line 100 has made sure that [merged[date]] is an object. *)
Definition add_score (date : string) (merged : gmap string (gmap string Z))
    (e : string * Z) : gmap string (gmap string Z) :=
  let '(player, score) := e in
  let current := merged !! date ≫= (.!! player) in
  alter (<[player := or_zero current + score]>) date merged.

(** Lines 99-108, one iteration.  An inner object, even an empty one, is
    truthy, so [!merged[date]] holds exactly when the date is missing. *)
Definition merge_date (merged : gmap string (gmap string Z))
    (e : string * gmap string Z) : gmap string (gmap string Z) :=
  let '(date, scores) := e in
  let merged :=
    match merged !! date with
    | None => <[date := ∅]> merged
    | Some _ => merged
    end in
  forEach_key scores (add_score date) merged.

(** Lines 111-115, one iteration: the test is on the truthiness of the
    value read from the merged object. *)
Definition merge_attempt (merged : gmap string value) (e : string * value)
    : gmap string value :=
  let '(key, attempt) := e in
  if negb (truthy_prop (merged !! key))
  then <[key := attempt]> merged
  else merged.

(** Lines 122-124, one iteration: an unconditional assignment. *)
Definition set_progress (player : string)
    (merged : gmap string (gmap string value)) (e : string * value)
    : gmap string (gmap string value) :=
  let '(key, progress) := e in
  alter (<[key := progress]>) player merged.

(** Lines 118-125, one iteration. *)
Definition merge_progress (merged : gmap string (gmap string value))
    (e : string * gmap string value) : gmap string (gmap string value) :=
  let '(player, items) := e in
  let merged :=
    match merged !! player with
    | None => <[player := ∅]> merged
    | Some _ => merged
    end in
  forEach_key items (set_progress player) merged.

(** [existingReport.reportId === newReport.reportId] on identifiers that
    are strings or missing. *)
Definition same_reportId (a b : report) : bool :=
  bool_decide (reportId a = reportId b).

(** Lines 128-135, one iteration. *)
Definition merge_report (merged : list report) (newReport : report)
    : list report :=
  let exists_ := existsb (λ existingReport,
                   same_reportId existingReport newReport) merged in
  if negb exists_ then merged ++ [newReport] else merged.

(** Lines 75-135: [mergedData] once the five loops have run.  Every loop
    writes one field of [mergedData] only, so each field is computed from
    its initial copy by its own loop.  The inner objects that the copies
    share with [existingData] are written through [mergedData] and never
    read through [existingData] afterwards. *)
Definition merge (now : string) (existingData incomingData : document)
    : document :=
  {| _id := Some "main";
     questionSets :=
       Some (spread2 (questionSets existingData) (questionSets incomingData));
     playerProfiles :=
       Some (forEach_key (or_obj (playerProfiles incomingData))
               (merge_player (playerProfiles existingData))
               (or_obj (playerProfiles existingData)));
     dailyRevisionScores :=
       Some (forEach_key (or_obj (dailyRevisionScores incomingData))
               merge_date
               (or_obj (dailyRevisionScores existingData)));
     practiceHistory :=
       Some (forEach_key (or_obj (practiceHistory incomingData))
               merge_attempt
               (or_obj (practiceHistory existingData)));
     revisionProgress :=
       Some (forEach_key (or_obj (revisionProgress incomingData))
               merge_progress
               (or_obj (revisionProgress existingData)));
     reportedQuestions :=
       Some (forEach (or_arr (reportedQuestions incomingData))
               merge_report
               (or_arr (reportedQuestions existingData)));
     lastUpdated := Some now |}.

(** The writes of an inner loop (lines 103-107, 122-124) seen from the
    inner object they go to: [f key v] is one write. *)
Definition inner_loop {V A} (f : string → V → gmap string A → gmap string A)
    (l : list (string * V)) (inner : gmap string A) : gmap string A :=
  fold_left (λ inner e, f e.1 e.2 inner) l inner.


Definition write_score (player : string) (score : Z)
    (inner : gmap string Z) : gmap string Z :=
  <[player := or_zero (inner !! player) + score]> inner.

(** [o[a][b]] on a two-level object. *)
Definition lookup2 {A} (o : gmap string (gmap string A)) (a b : string)
    : option A :=
  o !! a ≫= (.!! b).

(** Line 72: [findOne(...) || {}]. *)
Definition or_empty (stored : option document) : document :=
  default empty_document stored.

End Sync.

(** ** The handler around the merge (sync.js, lines 16-181) *)

Module Handler.

Import Sync.

Record event : Type := Event {
  httpMethod : string;
  body : string
}.

(** What [JSON.stringify] is applied to in each response. *)
Inductive payload : Type :=
| EmptyBody
| Snapshot (data : document)
| Synced (players sets : nat)
| MethodNotAllowed
| InternalError (message : string).

Record response : Type := Response {
  statusCode : Z;
  headers : list (string * string);
  payload_of : payload
}.

(** The calls the handler makes on the database. *)
Inductive db_call : Type :=
| Connect
| FindOne
| UpdateOne (doc : document).

(** What the handler runs against: the module-level [cachedClient], the
    database (reachable or not, and the document stored under ['main']),
    the clock, and the calls made so far, latest first. *)
Record world : Type := World {
  cachedClient : bool;
  reachable : bool;
  stored : option document;
  clock : string;
  calls : list db_call
}.

Definition log (c : db_call) (w : world) : world :=
  World (cachedClient w) (reachable w) (stored w) (clock w) (c :: calls w).

(** Code that may throw, run against the world. *)
Definition io (A : Type) : Type := world → (string + A) * world.

#[local] Instance io_ret : MRet io := λ A x w, (inr x, w).
#[local] Instance io_bind : MBind io := λ A B f m w,
  match m w with
  | (inr x, w') => f x w'
  | (inl err, w') => (inl err, w')
  end.

Definition throw {A} (err : string) : io A := λ w, (inl err, w).

(** Lines 5-14. *)
Definition connectToDatabase : io unit := λ w,
  if cachedClient w then (inr (), w)
  else
    let w := log Connect w in
    if reachable w
    then (inr (), World true (reachable w) (stored w) (clock w) (calls w))
    else (inl "connect failed", w).

(** [collection.findOne({ _id: 'main' })]. *)
Definition findOne : io (option document) := λ w,
  let w := log FindOne w in
  if reachable w then (inr (stored w), w) else (inl "findOne failed", w).

(** [collection.updateOne({ _id: 'main' }, { $set: doc }, { upsert: true })]
    with a [doc] that sets every field of the snapshot. *)
Definition updateOne (doc : document) : io unit := λ w,
  let w := log (UpdateOne doc) w in
  if reachable w
  then (inr (), World (cachedClient w) (reachable w) (Some doc) (clock w) (calls w))
  else (inl "updateOne failed", w).

Definition now : io string := λ w, (inr (clock w), w).

(** Lines 18-22. *)
Definition cors : list (string * string) :=
  [("Access-Control-Allow-Origin", "*");
   ("Access-Control-Allow-Headers", "Content-Type");
   ("Access-Control-Allow-Methods", "GET, POST, OPTIONS")].

(** Lines 44-50: the structure sent when nothing is stored. *)
Definition empty_structure (t : string) : document :=
  {| _id := None;
     questionSets := Some ∅;
     playerProfiles := Some ∅;
     dailyRevisionScores := Some ∅;
     practiceHistory := Some ∅;
     revisionProgress := Some ∅;
     reportedQuestions := Some [];
     lastUpdated := Some t |}.

Section handler.
(** [JSON.parse] on the request body; [None] when it throws. *)
Variable JSON_parse : string → option document.

Definition parse (text : string) : io document :=
  match JSON_parse text with
  | Some doc => mret doc
  | None => throw "Unexpected token"
  end.

(** Lines 30-168: the body of the [try] block. *)
Definition try_block (ev : event) : io response :=
  _ ← connectToDatabase;
  if String.eqb (httpMethod ev) "GET" then
    data ← findOne;
    match data with
    | None =>
        t ← now;
        mret (Response 200 cors (Snapshot (empty_structure t)))
    | Some data => mret (Response 200 cors (Snapshot data))
    end
  else if String.eqb (httpMethod ev) "POST" then
    incomingData ← parse (body ev);
    found ← findOne;
    let existingData := or_empty found in
    t ← now;
    let mergedData := merge t existingData incomingData in
    _ ← updateOne mergedData;
    mret (Response 200 cors
            (Synced (size (or_obj (playerProfiles mergedData)))
                    (size (or_obj (questionSets mergedData)))))
  else
    mret (Response 405 cors MethodNotAllowed).

(** Lines 16-181. *)
Definition handler (ev : event) (w : world) : response * world :=
  if String.eqb (httpMethod ev) "OPTIONS" then
    (Response 200 cors EmptyBody, w)
  else
    match try_block ev w with
    | (inr resp, w') => (resp, w')
    | (inl message, w') => (Response 500 cors (InternalError message), w')
    end.
End handler.

End Handler.

(** ** Documents with one field, for the scenarios *)

Definition only_playerProfiles (o : gmap string profile) : document :=
  Document None None (Some o) None None None None None.
Definition only_dailyRevisionScores (o : gmap string (gmap string Z))
    : document :=
  Document None None None (Some o) None None None None.

(** The reportIds of a sequence of reports, in order. *)
Abbreviation ids l := (reportId <$> l) (only parsing).

(** ** The player rule in words, for comparison with [Sync.merge_player] *)

(** A missing [totalXP] read as 0. *)
Definition xp (p : profile) : Z := default 0 (totalXP p).


(** The rule of line 93: an incoming profile without [totalXP] never
    replaces a stored one. *)
Definition takes_incoming (existing : option profile)
    (incoming : profile) : bool :=
  match existing with
  | None => true
  | Some existing =>
      match totalXP incoming with
      | Some n => xp existing <? n
      | None => false
      end
  end.

(** ** Successive invocations of the handler *)





Import Sync.

(** ** Loops that write one key per iteration *)

Section per_key.
Context {V A : Type}.
Variable upd : string → V → option A → option A.
Variable step : gmap string A → string * V → gmap string A.
Hypothesis step_upd :
  ∀ m k v, step m (k, v) = partial_alter (upd k v) k m.

Lemma fold_left_per_key (l : list (string * V)) (m : gmap string A) p :
  NoDup l.*1 →
  fold_left step l m !! p =
    match (list_to_map l : gmap string V) !! p with
    | Some v => upd p v (m !! p)
    | None => m !! p
    end.
Proof.
  revert m. induction l as [|[k v] l IH]; intros m Hnd.
  - cbn. by rewrite lookup_empty.
  - apply NoDup_cons in Hnd as [Hk Hnd]. cbn [fold_left].
    rewrite IH, step_upd, lookup_partial_alter by done.
    change (list_to_map ((k, v) :: l) : gmap string V)
      with (<[k := v]> (list_to_map l : gmap string V)).
    rewrite lookup_insert. case_decide as Hkp.
    + subst p. by rewrite (not_elem_of_list_to_map_1 l k Hk).
    + done.
Qed.

Lemma forEach_key_lookup (o : gmap string V) (m : gmap string A) p :
  forEach_key o step m !! p =
    match o !! p with
    | Some v => upd p v (m !! p)
    | None => m !! p
    end.
Proof.
  unfold forEach_key.
  rewrite fold_left_per_key by apply NoDup_fst_map_to_list.
  by rewrite list_to_map_to_list.
Qed.
End per_key.

(** A loop that writes under [merged[outer]] only is a loop on that inner
    object. *)
Section under_key.
Context {V A : Type}.
Variable outer : string.
Variable f : string → V → gmap string A → gmap string A.
Variable step : gmap string (gmap string A) → string * V →
                gmap string (gmap string A).
Hypothesis step_alter : ∀ m k v, step m (k, v) = alter (f k v) outer m.

Lemma fold_left_under_key (l : list (string * V))
    (m : gmap string (gmap string A)) :
  fold_left step l m = alter (inner_loop f l) outer m.
Proof.
  revert m. induction l as [|[k v] l IH]; intros m; cbn [fold_left].
  - apply map_eq; intros j. rewrite lookup_alter.
    case_decide; [subst|done]. destruct (_ !! _); reflexivity.
  - rewrite IH, step_alter. apply map_eq; intros j. rewrite !lookup_alter.
    case_decide; [|done]. rewrite decide_True by done.
    destruct (_ !! _); reflexivity.
Qed.

(** The guard in front of the inner loop creates the inner object when
    it is missing. *)
Lemma guarded_under_key (l : list (string * V))
    (m : gmap string (gmap string A)) :
  fold_left step l
    (match m !! outer with None => <[outer := ∅]> m | Some _ => m end) =
  partial_alter (λ cur, Some (inner_loop f l (default ∅ cur))) outer m.
Proof.
  rewrite fold_left_under_key. apply map_eq; intros j.
  rewrite lookup_alter, lookup_partial_alter.
  destruct (m !! outer) as [inner|] eqn:Hm.
  - case_decide; [|done]. by rewrite Hm.
  - case_decide; [|by apply lookup_insert_ne].
    by rewrite lookup_insert_eq.
Qed.
End under_key.

(** ** What each loop leaves under a key *)

Lemma or_zero_default (x : option Z) : or_zero x = default 0 x.
Proof.
  destruct x as [n|]; [|done]. cbn.
  destruct (Z.eqb_spec n 0); by subst.
Qed.

Lemma forEach_merge_player existing (incoming merged : gmap string profile) p :
  forEach_key incoming (merge_player existing) merged !! p =
    match incoming !! p with
    | None => merged !! p
    | Some incomingPlayer =>
        match existing ≫= (.!! p) with
        | None => Some incomingPlayer
        | Some existingPlayer =>
            if gt (totalXP incomingPlayer) (or_zero (totalXP existingPlayer))
            then Some incomingPlayer
            else merged !! p
        end
    end.
Proof.
  apply (forEach_key_lookup (λ k v cur,
    match existing ≫= (.!! k) with
    | None => Some v
    | Some ex => if gt (totalXP v) (or_zero (totalXP ex)) then Some v else cur
    end)).
  intros m k v. unfold merge_player. apply map_eq; intros j.
  rewrite lookup_partial_alter.
  destruct (existing ≫= (.!! k)) as [ex|];
    [destruct (gt _ _)|]; rewrite ?lookup_insert; by case_decide; subst.
Qed.





Lemma inner_loop_write_score (scores inner : gmap string Z) p :
  inner_loop write_score (map_to_list scores) inner !! p =
    match scores !! p with
    | None => inner !! p
    | Some score => Some (default 0 (inner !! p) + score)
    end.
Proof.
  apply (forEach_key_lookup (λ _ v cur, Some (default 0 cur + v))
           (λ inner e, write_score e.1 e.2 inner)).
  intros m k v. cbn. unfold write_score. apply map_eq; intros j.
  rewrite lookup_partial_alter, lookup_insert, or_zero_default.
  by case_decide.
Qed.

Lemma forEach_merge_date (incoming merged : gmap string (gmap string Z)) d :
  forEach_key incoming merge_date merged !! d =
    match incoming !! d with
    | None => merged !! d
    | Some scores =>
        Some (inner_loop write_score (map_to_list scores)
                (default ∅ (merged !! d)))
    end.
Proof.
  apply (forEach_key_lookup (λ _ (scores : gmap string Z) cur,
    Some (inner_loop write_score (map_to_list scores) (default ∅ cur)))).
  intros m date scores. unfold merge_date, forEach_key.
  apply guarded_under_key. intros m' player score.
  unfold add_score, write_score.
  apply map_eq; intros j. rewrite !lookup_alter.
  case_decide; [|done]. by destruct (m' !! date).
Qed.

Lemma forEach_merge_date2 (incoming merged : gmap string (gmap string Z)) d p :
  lookup2 (forEach_key incoming merge_date merged) d p =
    match lookup2 incoming d p with
    | None => lookup2 merged d p
    | Some score => Some (default 0 (lookup2 merged d p) + score)
    end.
Proof.
  unfold lookup2. rewrite forEach_merge_date.
  destruct (incoming !! d) as [scores|]; [|done]. cbn.
  rewrite inner_loop_write_score. by destruct (merged !! d).
Qed.

(** ** The report loop *)









(** ** The merge rules *)

(** *** revisionProgress *)



(** *** practiceHistory *)




(** *** dailyRevisionScores *)



(** *** playerProfiles *)

Lemma gt_or_zero (existing incoming : profile) :
  gt (totalXP incoming) (or_zero (totalXP existing)) =
  takes_incoming (Some existing) incoming.
Proof.
  unfold takes_incoming, xp, gt. by rewrite or_zero_default.
Qed.

Lemma bind_or_obj {V} (o : option (gmap string V)) (k : string) :
  o ≫= (.!! k) = or_obj o !! k.
Proof. by destruct o. Qed.

Lemma merged_player (now : string) (stored incoming : document) (p : string) :
  or_obj (playerProfiles (merge now stored incoming)) !! p =
    match or_obj (playerProfiles incoming) !! p with
    | None => or_obj (playerProfiles stored) !! p
    | Some incomingPlayer =>
        if takes_incoming (or_obj (playerProfiles stored) !! p) incomingPlayer
        then Some incomingPlayer
        else or_obj (playerProfiles stored) !! p
    end.
Proof.
  cbn. rewrite forEach_merge_player.
  destruct (or_obj (playerProfiles incoming) !! p) as [ip|]; [|done].
  rewrite bind_or_obj.
  destruct (or_obj (playerProfiles stored) !! p) as [ex|]; [|done].
  by rewrite gt_or_zero.
Qed.




(** The scenario of the specification: alice keeps 100 XP, bob is added. *)
Example playerProfiles_scenario :
  or_obj (playerProfiles
    (merge "t"
       (only_playerProfiles {[ "alice" := Profile (Some 100) [] ]})
       (only_playerProfiles {[ "alice" := Profile (Some 80) [];
                               "bob" := Profile (Some 50) [] ]})))
  = {[ "alice" := Profile (Some 100) []; "bob" := Profile (Some 50) [] ]}.
Proof. vm_compute. reflexivity. Qed.

(** *** reportedQuestions *)



(** *** Merging the same incoming document a second time *)










(** *** Nothing stored *)






(** *** questionSets *)

(** C8: for every stored and incoming document and key k, a key of
    stored's questionSets is a key of the merged questionSets, a key of
    incoming's is too, and whenever incoming has a value at k (in
    particular when both have one) the merged value at k is incoming's;
    a key that incoming lacks keeps stored's value. *)
Theorem questionSets_incoming_overwrites (now : string)
    (stored incoming : document) (k : string) :
  let merged := or_obj (questionSets (merge now stored incoming)) in
  (is_Some (or_obj (questionSets stored) !! k) → is_Some (merged !! k)) ∧
  (is_Some (or_obj (questionSets incoming) !! k) → is_Some (merged !! k)) ∧
  (∀ v, or_obj (questionSets incoming) !! k = Some v →
        merged !! k = Some v) ∧
  (or_obj (questionSets incoming) !! k = None →
   merged !! k = or_obj (questionSets stored) !! k).
Proof.
  cbn. unfold spread2. rewrite lookup_union.
  destruct (or_obj (questionSets incoming) !! k) as [v|],
    (or_obj (questionSets stored) !! k) as [v'|]; cbn;
    repeat split; intros; simplify_eq; eauto; by apply is_Some_None in H.
Qed.

Lemma questionSets_incoming_overwrites_witness :
  let stored :=
    Document None (Some {[ "s1" := VStr "old"; "s2" := VStr "kept" ]})
      None None None None None None in
  let incoming :=
    Document None (Some {[ "s1" := VStr "new"; "s3" := VStr "added" ]})
      None None None None None None in
  let merged := or_obj (questionSets (merge "t" stored incoming)) in
  merged !! "s1" = Some (VStr "new") ∧
  is_Some (merged !! "s2") ∧
  is_Some (merged !! "s3") ∧
  merged !! "s2" = Some (VStr "kept").
Proof.
  intros stored incoming merged.
  split; [|split; [|split]].
  - apply (questionSets_incoming_overwrites "t" stored incoming "s1").
    reflexivity.
  - apply (proj1 (questionSets_incoming_overwrites "t" stored incoming "s2")).
    exists (VStr "kept"). reflexivity.
  - apply (proj1 (proj2
      (questionSets_incoming_overwrites "t" stored incoming "s3"))).
    exists (VStr "added"). reflexivity.
  - unfold merged.
    rewrite (proj2 (proj2 (proj2
      (questionSets_incoming_overwrites "t" stored incoming "s2"))));
      reflexivity.
Defined.

(** *** The shape of the merged document *)

(** C9: for every stored document, absent or not, and every incoming
    document, the merged document has [_id = 'main'], a mapping in each
    of questionSets, playerProfiles, dailyRevisionScores, practiceHistory
    and revisionProgress, a sequence in reportedQuestions, and the time
    of the merge in lastUpdated; with nothing stored and an incoming
    document that omits every field the mappings and the sequence are
    empty. *)
Theorem merged_document_complete (now : string) (stored : option document)
    (incoming : document) :
  let merged := merge now (or_empty stored) incoming in
  _id merged = Some "main" ∧
  is_Some (questionSets merged) ∧
  is_Some (playerProfiles merged) ∧
  is_Some (dailyRevisionScores merged) ∧
  is_Some (practiceHistory merged) ∧
  is_Some (revisionProgress merged) ∧
  is_Some (reportedQuestions merged) ∧
  lastUpdated merged = Some now ∧
  merge now (or_empty None) empty_document =
    Document (Some "main") (Some ∅) (Some ∅) (Some ∅) (Some ∅) (Some ∅)
      (Some []) (Some now).
Proof.
  cbn [merge _id questionSets playerProfiles dailyRevisionScores
       practiceHistory revisionProgress reportedQuestions lastUpdated].
  repeat (split; [by eauto|]).
  unfold merge, spread2, forEach_key, forEach. cbn.
  rewrite !map_to_list_empty. cbn. by rewrite (left_id_L ∅ (∪)).
Qed.

(** ** The method dispatch *)

Import Handler.

Section dispatch.
Variable JSON_parse : string → option document.

Lemma headers_try_block (ev : event) (w : world) resp w' :
  try_block JSON_parse ev w = (inr resp, w') → headers resp = cors.
Proof.
  unfold try_block, connectToDatabase, findOne, updateOne, parse, now,
    throw, mbind, mret, io_bind, io_ret, log.
  destruct w as [[] [] [data|] t cs],
    (String.eqb (httpMethod ev) "GET"),
    (String.eqb (httpMethod ev) "POST"),
    (JSON_parse (body ev)); cbn;
    intros ?; simplify_eq; reflexivity.
Qed.

Lemma try_block_other_method (ev : event) (w : world) :
  httpMethod ev ≠ "GET" → httpMethod ev ≠ "POST" →
  try_block JSON_parse ev w =
    if cachedClient w then (inr (Response 405 cors MethodNotAllowed), w)
    else if reachable w
    then (inr (Response 405 cors MethodNotAllowed),
          World true true (stored w) (clock w) (Connect :: calls w))
    else (inl "connect failed", log Connect w).
Proof.
  intros Hget%String.eqb_neq Hpost%String.eqb_neq.
  unfold try_block, connectToDatabase, mbind, mret, io_bind, io_ret, log.
  rewrite Hget, Hpost. by destruct w as [[] [] data t cs].
Qed.
Lemma handler_post (ev : event) (w : world) (incomingData : document) :
  httpMethod ev = "POST" →
  JSON_parse (body ev) = Some incomingData →
  reachable w = true →
  let mergedData := merge (clock w) (or_empty (stored w)) incomingData in
  ∃ w',
    handler JSON_parse ev w =
      (Response 200 cors
         (Synced (size (or_obj (playerProfiles mergedData)))
                 (size (or_obj (questionSets mergedData)))), w') ∧
    stored w' = Some mergedData.
Proof.
  intros Hpost Hparse Hreach. unfold handler, try_block.
  rewrite Hpost. cbn [String.eqb Ascii.eqb Bool.eqb andb].
  unfold connectToDatabase, findOne, updateOne, parse, now, mbind, mret,
    io_bind, io_ret, log.
  rewrite Hparse. destruct w as [[] reach data t cs]; cbn in *; subst reach;
    eauto.
Qed.

End dispatch.

(** C10, as stated, fails for the methods that are not allowed: the
    handler connects to the database before it looks at the method, so
    with no cached client and an unreachable database a PUT request is
    answered with 500, not 405. *)
Lemma method_not_allowed_needs_connection :
  let ev := Event "PUT" "" in
  let w := World false false None "t" [] in
  httpMethod ev ≠ "GET" ∧ httpMethod ev ≠ "POST" ∧
  httpMethod ev ≠ "OPTIONS" ∧
  statusCode (handler (λ _, None) ev w).1 = 500.
Proof. repeat split; discriminate. Qed.

(** C10, amended: for every request whose method is not GET, POST or
    OPTIONS the handler writes nothing to the store (the stored document
    is unchanged and the only database call it can make is the connect)
    and returns 405 with the error body when a client is cached or the
    database can be reached, and 500 when the connection fails; for every
    OPTIONS request it returns 200 with an empty body without touching
    the database; and every response carries the same CORS headers. *)
Theorem handler_dispatch (JSON_parse : string → option document)
    (ev : event) (w : world) :
  (httpMethod ev ≠ "GET" → httpMethod ev ≠ "POST" →
   httpMethod ev ≠ "OPTIONS" →
   let (resp, w') := handler JSON_parse ev w in
   stored w' = stored w ∧
   (calls w' = calls w ∨ calls w' = Connect :: calls w) ∧
   (cachedClient w = true ∨ reachable w = true →
    resp = Response 405 cors MethodNotAllowed) ∧
   (cachedClient w = false → reachable w = false →
    statusCode resp = 500)) ∧
  (httpMethod ev = "OPTIONS" →
   handler JSON_parse ev w = (Response 200 cors EmptyBody, w)) ∧
  headers (handler JSON_parse ev w).1 = cors.
Proof.
  split; [|split].
  - intros Hget Hpost Hopt%String.eqb_neq. unfold handler.
    rewrite Hopt, try_block_other_method by done.
    destruct w as [[] [] data t cs]; cbn;
      repeat split; auto; intros; intuition congruence.
  - intros Hopt%String.eqb_eq. unfold handler. by rewrite Hopt.
  - unfold handler. destruct (String.eqb (httpMethod ev) "OPTIONS"); [done|].
    destruct (try_block JSON_parse ev w) as [[message|resp] w'] eqn:Htry;
      [done|].
    by apply headers_try_block in Htry.
Qed.

Lemma handler_dispatch_witness :
  let w := World true true None "t" [] in
  (let (resp, w') := handler (λ _, None) (Event "DELETE" "") w in
   stored w' = stored w ∧
   (calls w' = calls w ∨ calls w' = Connect :: calls w) ∧
   (cachedClient w = true ∨ reachable w = true →
    resp = Response 405 cors MethodNotAllowed) ∧
   (cachedClient w = false → reachable w = false →
    statusCode resp = 500)) ∧
  handler (λ _, None) (Event "OPTIONS" "") w
    = (Response 200 cors EmptyBody, w).
Proof.
  intros w. split.
  - apply (proj1 (handler_dispatch (λ _, None) (Event "DELETE" "") w));
      discriminate.
  - apply (proj1 (proj2
      (handler_dispatch (λ _, None) (Event "OPTIONS" "") w))).
    reflexivity.
Defined.

(** ** Whole requests *)

#[local] Set Warnings "-clear-no-such-hyp".


Section requests.
Variable JSON_parse : string → option document.

(** The run of the [try] block, case by case. *)
Lemma try_block_get (ev : event) (w : world) :
  httpMethod ev = "GET" →
  try_block JSON_parse ev w =
    if cachedClient w || reachable w then
      if reachable w then
        (inr (Response 200 cors
                (Snapshot (default (empty_structure (clock w)) (stored w)))),
         World true true (stored w) (clock w)
           (FindOne :: if cachedClient w then calls w
                       else Connect :: calls w))
      else (inl "findOne failed", log FindOne w)
    else (inl "connect failed", log Connect w).
Proof.
  intros Hget. unfold try_block. rewrite Hget.
  cbn [String.eqb Ascii.eqb Bool.eqb andb].
  unfold connectToDatabase, findOne, now, mbind, mret, io_bind, io_ret, log.
  by destruct w as [[] [] [data|] t cs].
Qed.

Lemma try_block_post (ev : event) (w : world) :
  httpMethod ev = "POST" →
  try_block JSON_parse ev w =
    if cachedClient w || reachable w then
      let connected :=
        if cachedClient w then calls w else Connect :: calls w in
      match JSON_parse (body ev) with
      | None =>
          (inl "Unexpected token",
           World true (reachable w) (stored w) (clock w) connected)
      | Some incomingData =>
          if reachable w then
            let mergedData :=
              merge (clock w) (or_empty (stored w)) incomingData in
            (inr (Response 200 cors
                    (Synced (size (or_obj (playerProfiles mergedData)))
                            (size (or_obj (questionSets mergedData))))),
             World true true (Some mergedData) (clock w)
               (UpdateOne mergedData :: FindOne :: connected))
          else (inl "findOne failed", log FindOne w)
      end
    else (inl "connect failed", log Connect w).
Proof.
  intros Hpost. unfold try_block. rewrite Hpost.
  cbn [String.eqb Ascii.eqb Bool.eqb andb].
  unfold connectToDatabase, findOne, updateOne, parse, throw, now, mbind,
    mret, io_bind, io_ret, log.
  destruct w as [[] [] data t cs]; cbn;
    by destruct (JSON_parse (body ev)).
Qed.

Lemma handler_not_options (ev : event) (w : world) :
  httpMethod ev ≠ "OPTIONS" →
  handler JSON_parse ev w =
    match try_block JSON_parse ev w with
    | (inr resp, w') => (resp, w')
    | (inl message, w') => (Response 500 cors (InternalError message), w')
    end.
Proof. intros Hopt%String.eqb_neq. unfold handler. by rewrite Hopt. Qed.

(** X1: A GET against a reachable database answers 200 with the stored
    document, or with the empty structure stamped with the current time
    when nothing is stored; it reads once, leaves the store as it is and
    leaves a client in the cache. *)
Theorem get_returns_snapshot (ev : event) (w : world) :
  httpMethod ev = "GET" →
  reachable w = true →
  handler JSON_parse ev w =
    (Response 200 cors
       (Snapshot (default (empty_structure (clock w)) (stored w))),
     World true true (stored w) (clock w)
       (FindOne :: if cachedClient w then calls w else Connect :: calls w)).
Proof.
  intros Hget Hreach.
  rewrite handler_not_options by (rewrite Hget; discriminate).
  rewrite try_block_get, Hreach by done. by rewrite orb_true_r.
Qed.

(** X2: Only a POST writes: for every request with another method, whatever
    the state of the database, the stored document is unchanged and no
    [updateOne] is issued. *)
Theorem only_post_writes (ev : event) (w : world) :
  httpMethod ev ≠ "POST" →
  stored (handler JSON_parse ev w).2 = stored w ∧
  ∀ doc, UpdateOne doc ∈ calls (handler JSON_parse ev w).2 →
         UpdateOne doc ∈ calls w.
Proof.
  intros Hpost.
  destruct (decide (httpMethod ev = "OPTIONS")) as [Hopt|Hopt].
  { unfold handler. apply String.eqb_eq in Hopt. by rewrite Hopt. }
  rewrite handler_not_options by done.
  destruct (decide (httpMethod ev = "GET")) as [Hget|Hget].
  - rewrite try_block_get by done.
    destruct w as [[] [] data t cs]; cbn; (split; [done|]); intros doc;
      rewrite ?elem_of_cons; naive_solver.
  - rewrite try_block_other_method by done.
    destruct w as [[] [] data t cs]; cbn; (split; [done|]); intros doc;
      rewrite ?elem_of_cons; naive_solver.
Qed.


(** X4: A POST whose body does not parse is answered 500, not 4xx; the body
    is parsed after connecting and before the read, so nothing is read
    and nothing is written. *)
Theorem post_malformed_body (ev : event) (w : world) :
  httpMethod ev = "POST" →
  JSON_parse (body ev) = None →
  let (resp, w') := handler JSON_parse ev w in
  statusCode resp = 500 ∧
  stored w' = stored w ∧
  (calls w' = calls w ∨ calls w' = Connect :: calls w).
Proof.
  intros Hpost Hparse.
  rewrite handler_not_options by (rewrite Hpost; discriminate).
  rewrite try_block_post, Hparse by done.
  destruct w as [[] [] data t cs]; cbn; auto.
Qed.

(** X5: With the database unreachable every GET and every POST is answered
    500 with the CORS headers, and the stored document is unchanged. *)
Theorem unreachable_database (ev : event) (w : world) :
  httpMethod ev = "GET" ∨ httpMethod ev = "POST" →
  reachable w = false →
  let (resp, w') := handler JSON_parse ev w in
  statusCode resp = 500 ∧ headers resp = cors ∧ stored w' = stored w.
Proof.
  intros [Hm|Hm] Hreach;
    (rewrite handler_not_options by (rewrite Hm; discriminate)).
  - rewrite try_block_get, Hreach by done.
    by destruct w as [[] reach data t cs].
  - rewrite try_block_post, Hreach by done.
    destruct w as [[] reach data t cs]; cbn;
      by destruct (JSON_parse (body ev)).
Qed.

(** X6: The client cache: a cached client stays cached and no request
    connects again; without one, a GET or POST connects exactly once,
    first of all, and caches the client if and only if the connection
    succeeds, so that a failed connection is tried again by the next
    request. *)
Theorem client_cache (ev : event) (w : world) :
  let w' := (handler JSON_parse ev w).2 in
  (cachedClient w = true →
   cachedClient w' = true ∧
   ∀ earlier, calls w' = earlier ++ calls w → Connect ∉ earlier) ∧
  (cachedClient w = false →
   httpMethod ev = "GET" ∨ httpMethod ev = "POST" →
   cachedClient w' = reachable w ∧
   ∃ later, calls w' = later ++ Connect :: calls w ∧ Connect ∉ later).
Proof.
  cbn zeta. split.
  - intros Hcached.
    destruct (decide (httpMethod ev = "OPTIONS")) as [Hopt|Hopt].
    { unfold handler. apply String.eqb_eq in Hopt. rewrite Hopt. cbn.
      split; [done|]. intros earlier Heq.
      assert (earlier = []) as ->; [|by apply not_elem_of_nil].
      apply (f_equal length) in Heq. rewrite length_app in Heq.
      destruct earlier; [done|]. cbn in Heq. lia. }
    rewrite handler_not_options by done.
    assert (∀ (l earlier cs : list db_call),
      Connect ∉ l → l ++ cs = earlier ++ cs → Connect ∉ earlier) as Hpre.
    { intros l earlier cs Hl Heq. by apply app_inv_tail in Heq as <-. }
    destruct (decide (httpMethod ev = "GET")) as [Hget|Hget];
      [|destruct (decide (httpMethod ev = "POST")) as [Hpost|Hpost]].
    + rewrite try_block_get by done.
      destruct w as [cached [] data t cs]; cbn in *; subst cached; cbn;
        (split; [done|]); intros earlier;
        apply (Hpre [FindOne]); set_solver.
    + rewrite try_block_post by done.
      destruct w as [cached [] data t cs]; cbn in *; subst cached; cbn;
        destruct (JSON_parse (body ev)); cbn; (split; [done|]);
        intros earlier;
        first [ apply (Hpre [UpdateOne _; FindOne]); set_solver
              | apply (Hpre [FindOne]); set_solver
              | apply (Hpre []); set_solver ].
    + rewrite try_block_other_method by done.
      destruct w as [cached [] data t cs]; cbn in *; subst cached; cbn;
        (split; [done|]); intros earlier; apply (Hpre []); set_solver.
  - intros Hcached [Hm|Hm];
      (rewrite handler_not_options by (rewrite Hm; discriminate)).
    + rewrite try_block_get by done.
      destruct w as [cached [] data t cs]; cbn in *; subst cached; cbn;
        (split; [done|]).
      * exists [FindOne]. split; [done|]. set_solver.
      * exists []. split; [done|]. set_solver.
    + rewrite try_block_post by done.
      destruct w as [cached [] data t cs]; cbn in *; subst cached; cbn;
        destruct (JSON_parse (body ev)); cbn; (split; [done|]).
      * exists [UpdateOne (merge t (or_empty data) d); FindOne].
        split; [done|]. set_solver.
      * exists []. split; [done|]. set_solver.
      * exists []. split; [done|]. set_solver.
      * exists []. split; [done|]. set_solver.
Qed.

(** X7: The status of a response is 200, 405 or 500; it is 405 only for a
    method other than GET, POST and OPTIONS, and a response that is not
    200 leaves the stored document unchanged. *)
Theorem status_codes (ev : event) (w : world) :
  let (resp, w') := handler JSON_parse ev w in
  (statusCode resp = 200 ∨ statusCode resp = 405 ∨ statusCode resp = 500) ∧
  (statusCode resp = 405 →
   httpMethod ev ≠ "GET" ∧ httpMethod ev ≠ "POST" ∧
   httpMethod ev ≠ "OPTIONS") ∧
  (statusCode resp ≠ 200 → stored w' = stored w).
Proof.
  destruct (decide (httpMethod ev = "OPTIONS")) as [Hopt|Hopt].
  { unfold handler. apply String.eqb_eq in Hopt. rewrite Hopt.
    split; [by left|]. split; [discriminate|done]. }
  rewrite handler_not_options by done.
  destruct (decide (httpMethod ev = "GET")) as [Hget|Hget];
    [|destruct (decide (httpMethod ev = "POST")) as [Hpost|Hpost]].
  - rewrite try_block_get by done.
    destruct w as [[] [] data t cs]; cbn; naive_solver.
  - rewrite try_block_post by done.
    destruct w as [[] [] data t cs]; cbn;
      destruct (JSON_parse (body ev)); cbn; naive_solver.
  - rewrite try_block_other_method by done.
    destruct w as [[] [] data t cs]; cbn; naive_solver.
Qed.



End requests.

Lemma get_returns_snapshot_witness :
  handler (λ _, None) (Event "GET" "") (World false true None "t" []) =
    (Response 200 cors (Snapshot (empty_structure "t")),
     World true true None "t" [FindOne; Connect]).
Proof.
  apply (get_returns_snapshot (λ _, None) (Event "GET" "")
           (World false true None "t" [])); reflexivity.
Defined.

Lemma only_post_writes_witness :
  let w := World true true (Some empty_document) "t" [] in
  stored (handler (λ _, None) (Event "GET" "") w).2 = stored w.
Proof.
  intros w.
  refine (proj1 (only_post_writes (λ _, None) (Event "GET" "") w _)).
  discriminate.
Defined.


Lemma post_malformed_body_witness :
  let w := World false true (Some empty_document) "t" [] in
  let (resp, w') := handler (λ _, None) (Event "POST" "{") w in
  statusCode resp = 500 ∧
  stored w' = stored w ∧
  (calls w' = calls w ∨ calls w' = Connect :: calls w).
Proof.
  apply (post_malformed_body (λ _, None) (Event "POST" "{")
           (World false true (Some empty_document) "t" [])); reflexivity.
Defined.

Lemma unreachable_database_witness :
  let w := World true false (Some empty_document) "t" [] in
  let (resp, w') := handler (λ _, Some empty_document) (Event "POST" "{}") w in
  statusCode resp = 500 ∧ headers resp = cors ∧ stored w' = stored w.
Proof.
  apply (unreachable_database (λ _, Some empty_document) (Event "POST" "{}")
           (World true false (Some empty_document) "t" []));
    [by right|reflexivity].
Defined.

Lemma client_cache_witness :
  cachedClient
    (handler (λ _, None) (Event "GET" "") (World true true None "t" [])).2
    = true ∧
  cachedClient
    (handler (λ _, None) (Event "GET" "") (World false false None "t" [])).2
    = false.
Proof.
  split.
  - apply (proj1 (client_cache (λ _, None) (Event "GET" "")
                    (World true true None "t" []))).
    reflexivity.
  - apply (proj2 (client_cache (λ _, None) (Event "GET" "")
                    (World false false None "t" []))); [reflexivity|].
    by left.
Defined.

Lemma status_codes_witness :
  httpMethod (Event "PUT" "") ≠ "GET" ∧
  httpMethod (Event "PUT" "") ≠ "POST" ∧
  httpMethod (Event "PUT" "") ≠ "OPTIONS".
Proof.
  pose proof (status_codes (λ _, None) (Event "PUT" "")
                (World true true None "t" [])) as Hstatus.
  cbn in Hstatus. apply Hstatus. reflexivity.
Defined.



(** ** More on the merge rules *)

(** *** No key is lost, none is invented *)






Lemma dom_lookup2 {A} (o : gmap string (gmap string A)) (a b : string) :
  b ∈ dom (default ∅ (o !! a)) ↔ is_Some (lookup2 o a b).
Proof.
  unfold lookup2. rewrite elem_of_dom.
  destruct (o !! a); cbn; [done|]. by rewrite lookup_empty.
Qed.




(** *** A field the client leaves out *)




(** *** Scores from two clients *)




(** X14: A stored score never disappears, and when no incoming score is
    negative no stored score decreases. *)
Theorem dailyRevisionScores_monotone (now : string)
    (stored incoming : document) :
  (∀ d p score,
     lookup2 (or_obj (dailyRevisionScores incoming)) d p = Some score →
     0 ≤ score) →
  ∀ d p before,
    lookup2 (or_obj (dailyRevisionScores stored)) d p = Some before →
    ∃ after,
      lookup2 (or_obj (dailyRevisionScores (merge now stored incoming))) d p
        = Some after ∧
      before ≤ after.
Proof.
  intros Hnonneg d p before Hbefore. cbn [merge dailyRevisionScores].
  change (or_obj (Some ?m)) with m.
  rewrite forEach_merge_date2, Hbefore.
  destruct (lookup2 (or_obj (dailyRevisionScores incoming)) d p)
    as [score|] eqn:Hinc.
  - apply Hnonneg in Hinc. eexists. split; [done|]. cbn. lia.
  - by exists before.
Qed.

Lemma dailyRevisionScores_monotone_witness :
  let stored :=
    only_dailyRevisionScores {[ "2024-01-01" := {[ "alice" := 5 ]} ]} in
  let incoming :=
    only_dailyRevisionScores {[ "2024-01-01" := {[ "alice" := 0 ]} ]} in
  ∃ after,
    lookup2 (or_obj (dailyRevisionScores (merge "t" stored incoming)))
      "2024-01-01" "alice" = Some after ∧
    5 ≤ after.
Proof.
  intros stored incoming.
  apply (dailyRevisionScores_monotone "t" stored incoming);
    [|reflexivity].
  intros d p score. cbn. unfold lookup2.
  destruct (decide (d = "2024-01-01")) as [->|Hd].
  - rewrite lookup_singleton_eq. cbn.
    destruct (decide (p = "alice")) as [->|Hp].
    + rewrite lookup_singleton_eq. intros [= <-]. lia.
    + by rewrite lookup_singleton_ne.
  - by rewrite lookup_singleton_ne.
Defined.

(** *** Reports, whatever is stored *)


(** *** Players: the higher XP wins, the stored profile on a tie *)

(** X16: For a player that is stored and whose incoming profile has a
    totalXP, the merged totalXP is the maximum of the two (a missing
    stored totalXP read as 0); the merged profile is the stored one when
    the incoming XP is not strictly greater, equal XP included, and the
    incoming one otherwise. *)
Theorem playerProfiles_max_wins (now : string) (stored incoming : document)
    (p : string) (existingPlayer incomingPlayer : profile) (n : Z) :
  or_obj (playerProfiles stored) !! p = Some existingPlayer →
  or_obj (playerProfiles incoming) !! p = Some incomingPlayer →
  totalXP incomingPlayer = Some n →
  ∃ mergedPlayer,
    or_obj (playerProfiles (merge now stored incoming)) !! p
      = Some mergedPlayer ∧
    xp mergedPlayer = Z.max (xp existingPlayer) n ∧
    (n ≤ xp existingPlayer → mergedPlayer = existingPlayer) ∧
    (xp existingPlayer < n → mergedPlayer = incomingPlayer).
Proof.
  intros Hex Hinc Hxp. rewrite merged_player, Hinc, Hex.
  unfold takes_incoming. rewrite Hxp.
  destruct (Z.ltb_spec (xp existingPlayer) n) as [Hlt|Hge].
  - exists incomingPlayer. split; [done|]. unfold xp at 1. rewrite Hxp. cbn.
    split; [lia|]. split; [lia|done].
  - exists existingPlayer. split; [done|]. split; [lia|]. split; [done|lia].
Qed.

Lemma playerProfiles_max_wins_witness :
  let stored := only_playerProfiles {[ "alice" := Profile (Some 100) [] ]} in
  let incoming :=
    only_playerProfiles
      {[ "alice" := Profile (Some 100) [("name", VStr "A")] ]} in
  ∃ mergedPlayer,
    or_obj (playerProfiles (merge "t" stored incoming)) !! "alice"
      = Some mergedPlayer ∧
    xp mergedPlayer = Z.max (xp (Profile (Some 100) [])) 100 ∧
    (100 ≤ xp (Profile (Some 100) []) →
     mergedPlayer = Profile (Some 100) []) ∧
    (xp (Profile (Some 100) []) < 100 →
     mergedPlayer = Profile (Some 100) [("name", VStr "A")]).
Proof.
  intros stored incoming.
  apply (playerProfiles_max_wins "t" stored incoming "alice"
           (Profile (Some 100) []) (Profile (Some 100) [("name", VStr "A")])
           100); reflexivity.
Defined.

(** *** practiceHistory, falsy values included *)




(** *** Two merges in a row: the later writer wins *)


(** ** Any sequence of requests *)

(** X20: Lines 5-14 on their own: once [connectToDatabase] has succeeded, a
    further call returns the cached client without any database call and
    changes nothing; a call that fails leaves the cache empty, so the
    next call connects again. *)
Theorem connect_once (w : world) :
  match connectToDatabase w with
  | (inr _, w1) =>
      cachedClient w1 = true ∧ connectToDatabase w1 = (inr (), w1)
  | (inl _, w1) =>
      cachedClient w1 = false ∧ calls w1 = Connect :: calls w ∧
      ∃ w2, connectToDatabase w1 = (inl "connect failed", w2) ∧
            calls w2 = Connect :: Connect :: calls w
  end.
Proof.
  unfold connectToDatabase, log. destruct w as [[] [] data t cs]; cbn; eauto.
Qed.

Section sequences.
Variable JSON_parse : string → option document.






End sequences.




